(** * file-content-obfuscator: the transforms and the orchestrator of main.py

    A shallow embedding of [substitute_chars], [shuffle_chars] and
    [obfuscate_file] of [src/main.py], and the properties of the
    specification stated over it.

    - A Python [str] is a sequence of Unicode code points: [str] is a list of
      [char], a [char] being an integer in [range(0x110000)].
    - Python exceptions are values of [exn]; a computation that may raise
      returns a [result].
    - The file system and the process-wide random source are the state of a
      small state-and-exception monad [M]; what the operating system and
      [pathlib] decide (how a path is spelled, which calls fail) is an
      interface, [OS], over which the theorems are general. *)

From Stdlib Require Import ZArith Lia Bool Eqdep_dec Ascii.
From stdpp Require Import base option list gmap strings.

Local Open Scope Z_scope.

(** ** Exceptions and results *)

(** The exception classes that the code can raise. [FileNotFoundError],
    [IsADirectoryError] and [PermissionError] are subclasses of [OSError]
    (alias [IOError]), and [OSError] stands for its other instances;
    [UnicodeEncodeError] is a subclass of [ValueError]; [OverflowError] is
    not. *)
Inductive exn : Type :=
  | FileNotFoundError (msg : string)
  | IsADirectoryError
  | PermissionError
  | OSError (msg : string)
  | ValueError (msg : string)
  | UnicodeEncodeError
  | OverflowError
  | IndexError.

Inductive result (A : Type) : Type :=
  | Ok (a : A)
  | Raise (e : exn).
Arguments Ok {A} a.
Arguments Raise {A} e.

(** ** Characters and strings *)

(** [sys.maxunicode + 1]: [chr] accepts exactly [range(0x110000)]. *)
Definition in_range (i : Z) : bool := (0 <=? i) && (i <? 0x110000).

Record char : Type := Char { ord : Z; ord_in_range : in_range ord = true }.

Abbreviation str := (list char).

(** The argument of [chr] is first converted to a C [int] (32 bits). *)
Definition fits_c_int (i : Z) : bool := (- 2 ^ 31 <=? i) && (i <? 2 ^ 31).

(** What [chr(i)] raises for an [i] outside [range(0x110000)]:
    [OverflowError] when [i] does not fit a C [int], [ValueError] when it
    does. *)
Definition chr_error (i : Z) : exn :=
  if fits_c_int i then ValueError "chr() arg not in range(0x110000)"
  else OverflowError.

(** [chr(i)]: the character of code point [i]. Python integers are
    unbounded, so [ord(char) + key] is computed in [Z] without
    wrap-around. *)
Definition chr (i : Z) : result char :=
  match bool_dec (in_range i) true with
  | left H => Ok (Char i H)
  | right _ => Raise (chr_error i)
  end.

(** ** The shift transform: [substitute_chars] (main.py, lines 24-38) *)

(** The body of the [for] loop, with [obfuscated_content] as accumulator:
    [obfuscated_content += chr(ord(char) + key)]. The first character whose
    shifted code point [chr] rejects aborts the loop. *)
Fixpoint substitute_loop (content : str) (key : Z) (obfuscated_content : str)
  : result str :=
  match content with
  | [] => Ok obfuscated_content
  | char :: rest =>
      match chr (ord char + key) with
      | Ok c => substitute_loop rest key (obfuscated_content ++ [c])
      | Raise e => Raise e
      end
  end.

Definition substitute_chars (content : str) (key : Z) : result str :=
  substitute_loop content key [].

(** Every shifted code point of [content] is one that [chr] accepts. *)
Definition shift_in_range (key : Z) (content : str) : Prop :=
  Forall (fun c => in_range (ord c + key) = true) content.

(** ** The permute transform: [shuffle_chars] (main.py, lines 40-52) *)

(** The process-wide random source of the [random] module, as an interface:
    [randbelow n g] draws from generator state [g] and returns the drawn
    number with the next state. The library promises a result in
    [range(n)]; theorems that need the promise assume it. *)
Class RandomSource (G : Type) : Type :=
  randbelow : nat -> G -> nat * G.

(** [x[i], x[j] = x[j], x[i]]: the right-hand side reads [x[j]] then [x[i]],
    then [x[i]] and [x[j]] are stored in that order. An index outside the
    list raises [IndexError]. *)
Definition swap {A : Type} (x : list A) (i j : nat) : result (list A) :=
  match x !! j, x !! i with
  | Some xj, Some xi => Ok (<[j := xi]> (<[i := xj]> x))
  | _, _ => Raise IndexError
  end.

(** The loop of [random.shuffle], from index [i] down to index 1:
    [j = randbelow(i + 1); x[i], x[j] = x[j], x[i]]. *)
Fixpoint shuffle_from {G : Type} {RS : RandomSource G} {A : Type}
  (i : nat) (x : list A) (g : G) : result (list A) * G :=
  match i with
  | O => (Ok x, g)
  | S i' =>
      let (j, g') := randbelow (S i' + 1)%nat g in
      match swap x (S i') j with
      | Ok x' => shuffle_from i' x' g'
      | Raise e => (Raise e, g')
      end
  end.

(** [random.shuffle(x)] of the Python standard library (Fisher-Yates):
    [for i in reversed(range(1, len(x))): ...]. *)
Definition random_shuffle {G : Type} {RS : RandomSource G} {A : Type}
  (x : list A) (g : G) : result (list A) * G :=
  shuffle_from (length x - 1)%nat x g.

(** ** The file system and the state of a run *)

(** What a path names: a directory, or a regular file with its permissions
    and its text. The map is indexed by the path as the caller spells it and
    gives what that spelling names ([stat] succeeds exactly on its domain;
    the empty path is the current directory). The text of a file is the text
    that reading it in text mode returns, decoded and with its line ends
    translated; a file whose bytes do not decode is not represented. A write
    is recorded at the spelling it went through, with the text as it was
    written: the statements below look at a file after a write only through
    that spelling, and never read back what a run wrote. *)
Inductive node : Type :=
  | Dir
  | File (readable writable : bool) (data : str).

Record World (G : Type) : Type :=
  mkWorld { files : gmap string node; rng : G }.
Arguments mkWorld {G} files rng.
Arguments files {G} w.
Arguments rng {G} w.

(** The text encoding of the platform, as an interface: which characters the
    encoder of a file opened in text mode accepts. *)
Class Codec : Type :=
  encodable : char -> bool.

(** What the operating system and [pathlib] decide, as an interface:
    - [path_str p] is [str(Path(p))], the spelling of [p] that [Path]
      normalises to;
    - [stat_error p], for a path that names nothing, is the error of [stat]
      that [Path.exists] re-raises instead of answering [False] (a name that
      is too long, a directory that may not be searched), if any;
    - [open_error p] is the error of [open(p, 'w')] on a path that names
      nothing or a writable file (no parent directory, no space, a
      read-only file system), if any;
    - [write_error p s] is the error of writing the text [s] to the file
      opened at [p] (no space left, a file size limit), if any, with the
      part of the text that the file is left with. *)
Class OS : Type := {
  path_str : string -> string;
  stat_error : string -> option exn;
  open_error : string -> option exn;
  write_error : string -> str -> option (exn * str)
}.

(** Computations that read and update the world and may raise. A raised
    exception keeps the effects that happened before it. *)
Definition M (G A : Type) : Type := World G -> result A * World G.

Definition ret {G A : Type} (a : A) : M G A := fun w => (Ok a, w).

Definition raise {G A : Type} (e : exn) : M G A := fun w => (Raise e, w).

Definition bind {G A B : Type} (m : M G A) (k : A -> M G B) : M G B :=
  fun w =>
    match m w with
    | (Ok a, w') => k a w'
    | (Raise e, w') => (Raise e, w')
    end.

Definition lift {G A : Type} (r : result A) : M G A := fun w => (r, w).

Declare Scope py_scope.
Delimit Scope py_scope with py.
Notation "'let*' x ':=' m 'in' k" := (bind m (fun x => k))
  (at level 10, x name, m at level 100, k at level 200) : py_scope.
Notation "m ';;' k" := (bind m (fun _ => k))
  (at level 100, k at level 200, right associativity) : py_scope.

(** [Path(p).exists()]: [True] when [stat] succeeds, [False] when it fails
    because the path names nothing; any other error of [stat] is raised. *)
Definition path_exists {G : Type} {OS0 : OS} (p : string) : M G bool :=
  fun w =>
    match files w !! p with
    | Some _ => (Ok true, w)
    | None =>
        match stat_error p with
        | Some e => (Raise e, w)
        | None => (Ok false, w)
        end
    end.

(** [with open(p, 'r') as infile: content = infile.read()]. *)
Definition read_text {G : Type} (p : string) : M G str :=
  fun w =>
    match files w !! p with
    | None =>
        (Raise (FileNotFoundError
                  ("[Errno 2] No such file or directory: " +:+ p)), w)
    | Some Dir => (Raise IsADirectoryError, w)
    | Some (File false _ _) => (Raise PermissionError, w)
    | Some (File true _ data) => (Ok data, w)
    end.

(** [open(p, 'w')]: creates the file, or truncates it when it exists,
    unless the operating system refuses. *)
Definition open_write {G : Type} {OS0 : OS} (p : string) : M G unit :=
  fun w =>
    match files w !! p with
    | Some Dir => (Raise IsADirectoryError, w)
    | Some (File _ false _) => (Raise PermissionError, w)
    | Some (File r true _) =>
        match open_error p with
        | Some e => (Raise e, w)
        | None => (Ok tt, mkWorld (<[p := File r true []]> (files w)) (rng w))
        end
    | None =>
        match open_error p with
        | Some e => (Raise e, w)
        | None =>
            (Ok tt, mkWorld (<[p := File true true []]> (files w)) (rng w))
        end
    end.

Definition set_data (s : str) (n : node) : node :=
  match n with
  | Dir => Dir
  | File r w _ => File r w s
  end.

(** [outfile.write(s)] on the file opened at [p], and the close at the end
    of the [with] block: the text is encoded as a whole, and a character the
    encoder rejects raises [UnicodeEncodeError] before any data is stored;
    the encoded text then goes to the file, completely unless the operating
    system fails the write, which leaves a part of it. *)
Definition write_data {G : Type} {CD : Codec} {OS0 : OS} (p : string) (s : str)
  : M G unit :=
  fun w =>
    if forallb encodable s
    then
      match write_error p s with
      | Some (e, stored) =>
          (Raise e, mkWorld (alter (set_data stored) p (files w)) (rng w))
      | None => (Ok tt, mkWorld (alter (set_data s) p (files w)) (rng w))
      end
    else (Raise UnicodeEncodeError, w).

(** [with open(p, 'w') as outfile: outfile.write(s)]. *)
Definition write_text {G : Type} {CD : Codec} {OS0 : OS} (p : string) (s : str)
  : M G unit :=
  (open_write p ;; write_data p s)%py.

(** [shuffle_chars]: [content_list = list(content);
    random.shuffle(content_list); return ''.join(content_list)]. The random
    source is the one of the process. *)
Definition shuffle_chars {G : Type} {RS : RandomSource G} (content : str)
  : M G str :=
  fun w =>
    let (content_list, g') := random_shuffle content (rng w) in
    (content_list, mkWorld (files w) g').

(** ** The orchestrator: [obfuscate_file] (main.py, lines 55-110) *)

(** The error of line 76, for the [Path] spelled [input_file_path]. *)
Definition input_not_found (input_file_path : string) : exn :=
  FileNotFoundError ("Input file not found: " +:+ input_file_path).

Definition no_method_selected : exn :=
  ValueError "No obfuscation method selected.  Use -s or -r to enable.".

(** The body of the [try] block. Each [except] clause logs the exception
    and re-raises it, so an exception leaves the function as it was raised;
    the log stream is not part of the state. Lines 72-73 turn the two
    arguments into [Path]s, which name the same files under a normalised
    spelling: the file system is consulted at the paths as given, and the
    message of line 76 shows the normalised spelling. *)
Definition obfuscate_file {G : Type} {RS : RandomSource G} {CD : Codec}
  {OS0 : OS} (input_file_path output_file_path : string)
  (substitution shuffle : bool) (key : Z) : M G unit :=
  (let* found := path_exists input_file_path in
   if negb found then raise (input_not_found (path_str input_file_path)) else
   if negb substitution && negb shuffle then raise no_method_selected else
   let* content := read_text input_file_path in
   let obfuscated_content := content in
   let* obfuscated_content :=
     (if substitution then lift (substitute_chars obfuscated_content key)
      else ret obfuscated_content) in
   let* obfuscated_content :=
     (if shuffle then shuffle_chars obfuscated_content
      else ret obfuscated_content) in
   write_text output_file_path obfuscated_content)%py.

(** The part of [obfuscate_file] before the output file is opened (lines
    72-92): the two checks, the read and the transforms, returning the
    content that line 95 writes. *)
Definition prepare_content {G : Type} {RS : RandomSource G} {OS0 : OS}
  (input_file_path : string) (substitution shuffle : bool) (key : Z)
  : M G str :=
  (let* found := path_exists input_file_path in
   if negb found then raise (input_not_found (path_str input_file_path)) else
   if negb substitution && negb shuffle then raise no_method_selected else
   let* content := read_text input_file_path in
   let obfuscated_content := content in
   let* obfuscated_content :=
     (if substitution then lift (substitute_chars obfuscated_content key)
      else ret obfuscated_content) in
   let* obfuscated_content :=
     (if shuffle then shuffle_chars obfuscated_content
      else ret obfuscated_content) in
   ret obfuscated_content)%py.

(** ** What a run leaves at the output path *)

(** The all-or-nothing reading of the write: after the run the output path
    holds the whole content [s], or is as it was before the run. *)
Definition all_or_nothing (fs : gmap string node) (p : string) (s : str)
  (fs' : gmap string node) : Prop :=
  fs' !! p = fs !! p \/ exists r w, fs' !! p = Some (File r w s).

(** ** Concrete instances, for the examples *)

(** UTF-8 with the [strict] error handler: every code point is encodable
    except the surrogates U+D800..U+DFFF. *)
Definition utf8 : Codec :=
  fun c => negb ((0xD800 <=? ord c) && (ord c <=? 0xDFFF)).

(** The components of a path: the strings between its slashes. *)
Fixpoint split_slash (s : string) : list string :=
  match s with
  | EmptyString => [EmptyString]
  | String a s' =>
      if Ascii.eqb a "/"%char then EmptyString :: split_slash s'
      else
        match split_slash s' with
        | [] => [String a EmptyString]
        | c :: cs => String a c :: cs
        end
  end.

Fixpoint leading_slashes (s : string) : nat :=
  match s with
  | String a s' => if Ascii.eqb a "/"%char then S (leading_slashes s') else O
  | EmptyString => O
  end.

(** [str(PurePosixPath(p))]: the root is kept (two leading slashes are kept
    as two, any other number as one), empty components and [.] components
    are dropped, the others are joined with single slashes, and the empty
    path is [.]. *)
Definition posix_path_str (p : string) : string :=
  let root :=
    match leading_slashes p with
    | O => ""
    | 2%nat => "//"
    | _ => "/"
    end in
  let parts :=
    filter (fun x => x <> "" /\ x <> ".") (split_slash p) in
  let s := root +:+ String.concat "/" parts in
  if decide (s = "") then "." else s.

(** [NAME_MAX]: a path component of more than 255 bytes is refused with
    [ENAMETOOLONG]. *)
Definition name_too_long (p : string) : option exn :=
  if forallb (fun x => String.length x <=? 255)%nat (split_slash p)
  then None
  else Some (OSError "[Errno 36] File name too long").

(** A POSIX system with room on the disk: paths are spelled as
    [PurePosixPath] spells them, the one error of [stat] and of [open] is a
    name that is too long, and a write that has started completes. *)
Definition posix : OS := {|
  path_str := posix_path_str;
  stat_error := name_too_long;
  open_error := name_too_long;
  write_error := fun _ _ => None
|}.

(** The same system with a full disk: a write of more than two characters
    fails with [ENOSPC] after the first two. *)
Definition posix_full_disk : OS := {|
  path_str := posix_path_str;
  stat_error := name_too_long;
  open_error := name_too_long;
  write_error := fun _ s =>
    if (2 <? length s)%nat
    then Some (OSError "[Errno 28] No space left on device", take 2 s)
    else None
|}.

(** A name of 300 bytes. *)
Definition long_name : string :=
  String.string_of_list_ascii (replicate 300 "a"%char).

(** A small linear congruential generator over [nat]. *)
Definition lcg : RandomSource nat :=
  fun n g => ((g `mod` n)%nat, ((5 * g + 3) `mod` 64)%nat).

(** The string of a literal: each of its bytes as a code point. *)
Definition char_of_ascii (a : Ascii.ascii) : char :=
  match chr (Z.of_N (Ascii.N_of_ascii a)) with
  | Ok c => c
  | Raise _ => Char 0 eq_refl
  end.

Fixpoint py (s : string) : str :=
  match s with
  | EmptyString => []
  | String a s' => char_of_ascii a :: py s'
  end.

Definition U_10FFFF : char := Char 0x10FFFF eq_refl.
Definition U_D800 : char := Char 0xD800 eq_refl.

(** A file system with one readable text file, and nothing else. *)
Definition one_file (p : string) (data : str) : gmap string node :=
  {[ p := File true true data ]}.

(** A file system with the input file "in", holding "a", and an output file
    "out" that already holds "keep". *)
Definition two_files : gmap string node :=
  <[ "out" := File true true (py "keep") ]> (one_file "in" (py "a")).

(** ** The entry point: [main] (main.py, lines 113-141) *)

(** The namespace that [parser.parse_args()] returns: the two positional
    arguments and the options [-s], [-r], [-k] and [-l] of
    [setup_argparse]. *)
Module args.
Record t : Type := mk {
  input_file : string;
  output_file : string;
  substitution : bool;
  shuffle : bool;
  key : Z;
  log_level : string
}.
End args.

(** The level names that [logging] knows; [Logger.setLevel] raises
    [ValueError] for any other string. *)
Definition level_names : list string :=
  ["CRITICAL"; "FATAL"; "ERROR"; "WARN"; "WARNING"; "INFO"; "DEBUG"; "NOTSET"].

Definition setLevel (level : string) : result unit :=
  if bool_decide (level ∈ level_names) then Ok tt
  else Raise (ValueError ("Unknown level: " +:+ level)).

(** [main], from the parsed arguments on, as the exit status of the
    process: [sys.exit(1)] when the log level is rejected and in each of the
    four [except] clauses around [obfuscate_file], which between them catch
    every exception; status 0 when [main] returns. *)
Definition main {G : Type} {RS : RandomSource G} {CD : Codec} {OS0 : OS}
  (a : args.t) : World G -> Z * World G :=
  fun w =>
    match setLevel (args.log_level a) with
    | Raise _ => (1, w)
    | Ok _ =>
        match obfuscate_file (args.input_file a) (args.output_file a)
                (args.substitution a) (args.shuffle a) (args.key a) w with
        | (Ok _, w') => (0, w')
        | (Raise _, w') => (1, w')
        end
    end.

(** ** Basic facts on characters *)

Lemma in_range_bounds i : in_range i = true <-> 0 <= i < 0x110000.
Proof. unfold in_range. rewrite andb_true_iff, Z.leb_le, Z.ltb_lt. tauto. Qed.

(** Two characters with the same code point are equal: the range proof is a
    proof of an equation between booleans, hence unique. *)
Lemma char_eq (a b : char) : ord a = ord b -> a = b.
Proof.
  destruct a as [x Hx], b as [y Hy]; simpl; intros ->.
  f_equal. apply UIP_dec, bool_dec.
Qed.

Lemma chr_in_range i (H : in_range i = true) : chr i = Ok (Char i H).
Proof.
  unfold chr. destruct (bool_dec (in_range i) true) as [H'|H'].
  - f_equal. f_equal. apply UIP_dec, bool_dec.
  - congruence.
Qed.

Lemma chr_out_of_range i :
  in_range i = false -> chr i = Raise (chr_error i).
Proof.
  intros E. unfold chr.
  destruct (bool_dec (in_range i) true); [congruence | reflexivity].
Qed.

Lemma chr_ord c : chr (ord c) = Ok c.
Proof.
  rewrite (chr_in_range _ (ord_in_range c)). f_equal. now apply char_eq.
Qed.

Lemma chr_Ok_ord i c : chr i = Ok c -> ord c = i.
Proof.
  destruct (in_range i) eqn:E.
  - rewrite (chr_in_range _ E). intros [= <-]. reflexivity.
  - rewrite (chr_out_of_range _ E). discriminate.
Qed.

(** ** The shift transform *)

(** The characters with the shifted code points exist as soon as the
    shifted code points are in range. *)
Lemma shifted_exists key content :
  shift_in_range key content ->
  exists out : str, map ord out = map (fun c => ord c + key) content.
Proof.
  induction 1 as [|c content Hc _ [out IH]].
  - now exists [].
  - exists (Char (ord c + key) Hc :: out). simpl. now rewrite IH.
Qed.

(** The loop appends, character by character, the characters whose code
    points are the shifted ones. *)
Lemma substitute_loop_shifted key content :
  forall (out acc : str),
    map ord out = map (fun c => ord c + key) content ->
    substitute_loop content key acc = Ok (acc ++ out).
Proof.
  induction content as [|c content IH]; intros out acc Hout.
  - destruct out; [|discriminate]. simpl. now rewrite app_nil_r.
  - destruct out as [|d out]; [discriminate|].
    simpl in Hout. injection Hout as Hd Hout.
    simpl. rewrite <- Hd, chr_ord.
    rewrite (IH out (acc ++ [d]) Hout).
    now rewrite <- app_assoc.
Qed.

Lemma substitute_chars_shifted key content out :
  map ord out = map (fun c => ord c + key) content ->
  substitute_chars content key = Ok out.
Proof. intros H. unfold substitute_chars. now rewrite (substitute_loop_shifted key content out []). Qed.


(** A shifted code point outside the range makes the loop raise, whatever
    was accumulated: it raises what [chr] raises for the first such code
    point. *)
Lemma substitute_loop_out_of_range key content :
  forall acc : str,
    Exists (fun c => in_range (ord c + key) = false) content ->
    exists c,
      c ∈ content /\ in_range (ord c + key) = false /\
      substitute_loop content key acc = Raise (chr_error (ord c + key)).
Proof.
  induction content as [|c content IH]; intros acc Hex.
  - inversion Hex.
  - simpl. destruct (in_range (ord c + key)) eqn:E.
    + rewrite (chr_in_range _ E).
      destruct (IH (acc ++ [Char (ord c + key) E])) as (d & Hd & Ed & Hr).
      { inversion Hex; subst; [congruence | assumption]. }
      exists d. split; [now right | now split].
    + rewrite (chr_out_of_range _ E). exists c. split; [now left | now split].
Qed.

(** The shift returns exactly when all shifted code points are in range. *)
Lemma substitute_chars_Ok_iff key content :
  (exists out, substitute_chars content key = Ok out) <->
  shift_in_range key content.
Proof.
  split.
  - intros [out Hout]. unfold shift_in_range. apply Forall_forall. intros c Hc.
    destruct (in_range (ord c + key)) eqn:E; [reflexivity|].
    unfold substitute_chars in Hout.
    destruct (substitute_loop_out_of_range key content [])
      as (d & _ & _ & Hr); [apply Exists_exists; eauto|].
    rewrite Hr in Hout. discriminate.
  - intros H. destruct (shifted_exists _ _ H) as [out Hout].
    exists out. now apply substitute_chars_shifted.
Qed.

(** In range, the shift returns the characters of the shifted code points,
    as many as the content has. *)
Lemma substitute_chars_in_range key content :
  shift_in_range key content ->
  exists out : str,
    substitute_chars content key = Ok out /\
    map ord out = map (fun c => ord c + key) content /\
    length out = length content.
Proof.
  intros H. destruct (shifted_exists _ _ H) as [out Hout].
  exists out. split; [now apply substitute_chars_shifted|]. split; [assumption|].
  rewrite <- (length_map ord out), Hout. apply length_map.
Qed.

(** C1 (as amended): for every content and key whose shifted code points
    all lie in [range(0x110000)], the shift returns a sequence of the same
    length whose character at each position [i] has code point
    [codepoint(C[i]) + K], without clamping or wrap-around; for a
    single-character content [[c]] this is a single element of code point
    [codepoint(c) + K]. *)
Theorem substitute_chars_codepoints (content : str) (key : Z) :
  shift_in_range key content ->
  exists out : str,
    substitute_chars content key = Ok out /\
    length out = length content /\
    forall (i : nat) (c : char),
      content !! i = Some c ->
      exists d, out !! i = Some d /\ ord d = ord c + key.
Proof.
  intros H. destruct (substitute_chars_in_range _ _ H) as (out & E & Hout & Hlen).
  exists out. split; [assumption|]. split; [assumption|].
  - intros i c Hi.
    assert (Hm : map ord out !! i = Some (ord c + key)).
    { rewrite Hout. change (map ?f ?l) with (f <$> l).
      rewrite list_lookup_fmap, Hi. reflexivity. }
    change (map ord out) with (ord <$> out) in Hm.
    rewrite list_lookup_fmap in Hm.
    destruct (out !! i) as [d|]; [|discriminate].
    exists d. split; [reflexivity|]. now injection Hm.
Qed.

Lemma substitute_chars_codepoints_witness :
  shift_in_range 1 (py "a") /\
  exists out : str,
    substitute_chars (py "a") 1 = Ok out /\
    length out = length (py "a") /\
    forall (i : nat) (c : char),
      py "a" !! i = Some c ->
      exists d, out !! i = Some d /\ ord d = ord c + 1.
Proof.
  split.
  - repeat constructor.
  - apply (substitute_chars_codepoints (py "a") 1). repeat constructor.
Defined.

(** C1 fails as stated: with the last code point and key 1, the shift
    returns no element of code point 0x110000. *)
Lemma substitute_chars_codepoints_counterexample :
  ~ exists d : char,
      substitute_chars [U_10FFFF] 1 = Ok [d] /\ ord d = ord U_10FFFF + 1.
Proof. intros [d [H _]]. vm_compute in H. discriminate. Qed.



(** Beyond the C [int]: key 2^31 on "a" raises [OverflowError]. *)
Example substitute_chars_overflow :
  substitute_chars (py "a") (2 ^ 31) = Raise OverflowError.
Proof. vm_compute. reflexivity. Qed.


(** C7 (as amended): for every content and key, whenever the shift returns,
    its result has the length of the content; it returns whenever the
    shifted code points are all in range; and empty content gives the empty
    sequence, for every key. *)
Theorem substitute_chars_length (content : str) (key : Z) :
  (forall out : str,
     substitute_chars content key = Ok out -> length out = length content) /\
  (shift_in_range key content ->
   exists out : str, substitute_chars content key = Ok out) /\
  substitute_chars [] key = Ok [].
Proof.
  split; [|split; [|reflexivity]].
  - intros out Hout.
    assert (Hin : shift_in_range key content)
      by (apply substitute_chars_Ok_iff; eauto).
    destruct (substitute_chars_in_range _ _ Hin) as (out' & E & _ & Hlen).
    congruence.
  - intros Hin. now apply substitute_chars_Ok_iff.
Qed.

Lemma substitute_chars_length_witness :
  substitute_chars (py "abc") 1 = Ok (py "bcd") /\
  length (py "bcd") = length (py "abc").
Proof.
  split.
  - vm_compute. reflexivity.
  - apply (proj1 (substitute_chars_length (py "abc") 1) (py "bcd")).
    vm_compute. reflexivity.
Defined.

(** C7 fails as stated: with key 1114014 the second character of "ab"
    leaves the range, the shift raises, and there is no output of length
    2. *)
Lemma substitute_chars_length_counterexample :
  ~ exists out : str,
      substitute_chars (py "ab") 1114014 = Ok out /\
      length out = length (py "ab").
Proof. intros [out [H _]]. vm_compute in H. discriminate. Qed.

(** C9: when every shifted code point is in range, shifting by [K] and then
    by [-K] gives the content back. *)
Theorem substitute_chars_inverse (content : str) (key : Z) :
  shift_in_range key content ->
  exists out : str,
    substitute_chars content key = Ok out /\
    substitute_chars out (- key) = Ok content.
Proof.
  intros H. destruct (shifted_exists _ _ H) as [out Hout].
  exists out. split; [now apply substitute_chars_shifted|].
  apply substitute_chars_shifted.
  rewrite <- (map_map ord (fun i => i + - key) out), Hout, map_map.
  apply map_ext. intros c. lia.
Qed.

Lemma substitute_chars_inverse_witness :
  shift_in_range 42 (py "abc") /\
  exists out : str,
    substitute_chars (py "abc") 42 = Ok out /\
    substitute_chars out (- 42) = Ok (py "abc").
Proof.
  split.
  - repeat constructor.
  - apply (substitute_chars_inverse (py "abc") 42). repeat constructor.
Defined.

(** C10: the shift with key 0 is the identity. *)
Theorem substitute_chars_zero (content : str) :
  substitute_chars content 0 = Ok content.
Proof.
  apply substitute_chars_shifted, map_ext. intros c. lia.
Qed.

(** ** The permute transform *)

Lemma swap_Ok {A : Type} (x : list A) (i j : nat) :
  (i < length x)%nat -> (j < length x)%nat ->
  exists x', swap x i j = Ok x' /\ x' ≡ₚ x /\ length x' = length x.
Proof.
  intros [xi Hi]%lookup_lt_is_Some_2 [xj Hj]%lookup_lt_is_Some_2.
  unfold swap. rewrite Hi, Hj. eexists. split; [reflexivity|]. split.
  - now apply Permutation_insert_swap.
  - now rewrite !length_insert.
Qed.

Lemma swap_out_of_range {A : Type} (x : list A) (i j : nat) :
  (length x <= i)%nat \/ (length x <= j)%nat -> swap x i j = Raise IndexError.
Proof.
  unfold swap. intros [H|H]; apply lookup_ge_None_2 in H; rewrite H.
  - now destruct (x !! j).
  - reflexivity.
Qed.

(** The generator of the examples keeps the promise of [randbelow]. *)
Lemma lcg_randbelow_lt (n g : nat) :
  (0 < n)%nat -> (fst (randbelow (RandomSource := lcg) n g) < n)%nat.
Proof. intros H. simpl. apply Nat.mod_upper_bound. lia. Qed.

Section Permute.
Context {G : Type} {RS : RandomSource G}.

(** The promise of the random source: [randbelow(n)] is in [range(n)]. *)
Hypothesis randbelow_lt :
  forall (n : nat) (g : G), (0 < n)%nat -> (fst (randbelow n g) < n)%nat.

Lemma shuffle_from_permutation {A : Type} (i : nat) :
  forall (x : list A) (g : G),
    (i < length x)%nat \/ i = O ->
    exists x' g', shuffle_from i x g = (Ok x', g') /\ x' ≡ₚ x.
Proof using randbelow_lt.
  induction i as [|i IH]; intros x g Hi.
  - exists x, g. now split.
  - destruct Hi as [Hi|Hi]; [|discriminate].
    cbn [shuffle_from]. pose proof (randbelow_lt (S i + 1) g ltac:(lia)) as Hj.
    destruct (randbelow (S i + 1) g) as [j g1]. simpl in Hj.
    destruct (swap_Ok x (S i) j) as (x1 & -> & Hp & Hlen); [lia..|].
    destruct (IH x1 g1) as (x' & g' & -> & Hp'); [left; lia|].
    exists x', g'. split; [reflexivity|]. now rewrite Hp'.
Qed.

Lemma random_shuffle_permutation {A : Type} (x : list A) (g : G) :
  exists x' g', random_shuffle x g = (Ok x', g') /\ x' ≡ₚ x.
Proof using randbelow_lt.
  apply shuffle_from_permutation.
  destruct x; simpl; [right; reflexivity | left; lia].
Qed.

Lemma random_shuffle_short {A : Type} (x : list A) (g : G) :
  (length x <= 1)%nat -> random_shuffle x g = (Ok x, g).
Proof.
  intros H. unfold random_shuffle.
  replace (length x - 1)%nat with O by lia. reflexivity.
Qed.

Lemma shuffle_chars_spec (content : str) (w : World G) :
  exists (out : str) (w' : World G),
    shuffle_chars content w = (Ok out, w') /\
    out ≡ₚ content /\
    files w' = files w.
Proof using randbelow_lt.
  unfold shuffle_chars.
  destruct (random_shuffle_permutation content (rng w)) as (out & g' & -> & Hp).
  now exists out, (mkWorld (files w) g').
Qed.

Lemma shuffle_chars_short (content : str) (w : World G) :
  (length content <= 1)%nat -> shuffle_chars content w = (Ok content, w).
Proof.
  intros H. unfold shuffle_chars. rewrite (random_shuffle_short _ _ H).
  now destruct w.
Qed.

(** C2: the permute transform returns, for every content and every state of
    the random source, a sequence with the same multiset of characters as
    the content, hence of the same length; empty or single-character
    content is returned unchanged. The file system is not touched. *)
Theorem shuffle_chars_permutation (content : str) (w : World G) :
  exists (out : str) (w' : World G),
    shuffle_chars content w = (Ok out, w') /\
    out ≡ₚ content /\
    length out = length content /\
    ((length content <= 1)%nat -> out = content) /\
    files w' = files w.
Proof using randbelow_lt.
  destruct (shuffle_chars_spec content w) as (out & w' & E & Hp & Hf).
  exists out, w'. repeat split; try assumption.
  - now rewrite Hp.
  - intros Hlen. rewrite (shuffle_chars_short _ _ Hlen) in E. now injection E.
Qed.

End Permute.

Lemma shuffle_chars_permutation_witness :
  (forall n g : nat,
     (0 < n)%nat -> (fst (randbelow (RandomSource := lcg) n g) < n)%nat) /\
  exists (out : str) (w' : World nat),
    shuffle_chars (RS := lcg) (py "hello") (mkWorld ∅ 7%nat) = (Ok out, w') /\
    out ≡ₚ py "hello" /\
    length out = length (py "hello") /\
    ((length (py "hello") <= 1)%nat -> out = py "hello") /\
    files w' = files (mkWorld ∅ 7%nat).
Proof.
  split.
  - exact lcg_randbelow_lt.
  - exact (shuffle_chars_permutation (RS := lcg) lcg_randbelow_lt
             (py "hello") (mkWorld ∅ 7%nat)).
Defined.

(** With this generator and seed, "hello" becomes "lheol". *)
Example shuffle_chars_hello :
  fst (shuffle_chars (RS := lcg) (py "hello") (mkWorld ∅ 7%nat)) =
  Ok (py "lheol").
Proof. vm_compute. reflexivity. Qed.

(** ** The orchestrator *)

Section Orchestrator.
Context {G : Type} {RS : RandomSource G} {CD : Codec} {OS0 : OS}.

Lemma path_exists_Some (p : string) (w : World G) :
  is_Some (files w !! p) -> path_exists p w = (Ok true, w).
Proof. intros [n H]. unfold path_exists. now rewrite H. Qed.

Lemma path_exists_None (p : string) (w : World G) :
  files w !! p = None -> stat_error p = None ->
  path_exists p w = (Ok false, w).
Proof. intros H E. unfold path_exists. now rewrite H, E. Qed.

Lemma path_exists_error (p : string) (w : World G) (e : exn) :
  files w !! p = None -> stat_error p = Some e ->
  path_exists p w = (Raise e, w).
Proof. intros H E. unfold path_exists. now rewrite H, E. Qed.

Lemma path_exists_files (p : string) (w w' : World G) (r : result bool) :
  path_exists p w = (r, w') -> w' = w.
Proof.
  unfold path_exists.
  destruct (files w !! p); [|destruct (stat_error p)]; now intros [= _ <-].
Qed.

Lemma read_text_files (p : string) (w w' : World G) (r : result str) :
  read_text p w = (r, w') -> w' = w.
Proof.
  unfold read_text.
  destruct (files w !! p) as [[|[] ? ?]|]; now intros [= _ <-].
Qed.

Lemma shuffle_chars_files (content : str) (w : World G) :
  files (snd (shuffle_chars content w)) = files w.
Proof.
  unfold shuffle_chars. now destruct (random_shuffle content (rng w)).
Qed.

(** The orchestrator is its preparation followed by the write. *)
Lemma obfuscate_file_prepare inp outp substitution shuffle key (w : World G) :
  obfuscate_file inp outp substitution shuffle key w =
  bind (prepare_content inp substitution shuffle key) (write_text outp) w.
Proof.
  unfold obfuscate_file, prepare_content, bind.
  destruct (path_exists inp w) as [[[]|e] w1]; cbn; try reflexivity.
  destruct (negb substitution && negb shuffle); cbn; [reflexivity|].
  destruct (read_text inp w1) as [[content|e] w2]; [|reflexivity].
  destruct substitution; cbn.
  - destruct (substitute_chars content key) as [s|e]; [|reflexivity].
    destruct shuffle; cbn; [|reflexivity].
    now destruct (shuffle_chars s w2) as [[s'|e] w3].
  - destruct shuffle; cbn; [|reflexivity].
    now destruct (shuffle_chars content w2) as [[s'|e] w3].
Qed.

(** The preparation reads the file system and never changes it. *)
Lemma prepare_content_files inp substitution shuffle key (w w' : World G) r :
  prepare_content inp substitution shuffle key w = (r, w') ->
  files w' = files w.
Proof.
  unfold prepare_content, bind.
  destruct (path_exists inp w) as [[[]|e] w1] eqn:Eex;
    apply path_exists_files in Eex; subst w1; cbn;
    try (now intros [= _ <-]).
  destruct (negb substitution && negb shuffle); cbn; [now intros [= _ <-]|].
  destruct (read_text inp w) as [[content|e] w2] eqn:Eread;
    apply read_text_files in Eread; subst w2; [|now intros [= _ <-]].
  assert (Hsh : forall s r w',
    (if shuffle then shuffle_chars s else ret s) w = (r, w') ->
    files w' = files w).
  { intros s r0 w0. destruct shuffle.
    - intros E. pose proof (shuffle_chars_files s w) as Hf.
      now rewrite E in Hf.
    - now intros [= _ <-]. }
  destruct substitution; cbn.
  - destruct (substitute_chars content key) as [s|e]; [|now intros [= _ <-]].
    destruct ((if shuffle then shuffle_chars s else ret s) w)
      as [[s'|e] w3] eqn:E; apply Hsh in E; now intros [= _ <-].
  - destruct ((if shuffle then shuffle_chars content else ret content) w)
      as [[s'|e] w3] eqn:E; apply Hsh in E; now intros [= _ <-].
Qed.

(** A write that returns has stored the whole text at the path, and
    changed nothing else. *)
Lemma write_text_Ok_inv (p : string) (s : str) (w w' : World G) :
  write_text p s w = (Ok tt, w') ->
  forallb encodable s = true /\
  exists r : bool, w' = mkWorld (<[p := File r true s]> (files w)) (rng w).
Proof.
  unfold write_text, bind, open_write, write_data.
  destruct (files w !! p) as [[|r [] d]|]; try discriminate;
    destruct (open_error p); try discriminate; cbn;
    destruct (forallb encodable s); try discriminate;
    destruct (write_error p s) as [[e stored]|]; try discriminate;
    intros [= <-]; rewrite alter_insert_eq; eauto.
Qed.

(** C3 (as amended): for every input path that exists (be it unreadable or
    a directory), every output path and key, a run with both transform flags
    false fails with the invalid-configuration [ValueError]; the check comes
    after the existence test of the input and before any file is opened, and
    the world, output file included, is left as it was. *)
Theorem obfuscate_file_no_method (inp outp : string) (key : Z) (w : World G) :
  is_Some (files w !! inp) ->
  obfuscate_file inp outp false false key w = (Raise no_method_selected, w).
Proof.
  intros H. unfold obfuscate_file, bind.
  now rewrite (path_exists_Some inp w H).
Qed.

(** C5 (as amended): for every input path that the existence test finds
    absent ([stat] fails because the path names nothing) and every
    combination of flags and key, the run fails with [FileNotFoundError],
    whose message shows the path as [Path] spells it, and the world, output
    file included, is left as it was. *)
Theorem obfuscate_file_not_found (inp outp : string)
  (substitution shuffle : bool) (key : Z) (w : World G) :
  files w !! inp = None ->
  stat_error inp = None ->
  obfuscate_file inp outp substitution shuffle key w =
    (Raise (input_not_found (path_str inp)), w).
Proof.
  intros H E. unfold obfuscate_file, bind.
  now rewrite (path_exists_None inp w H E).
Qed.

(** C8 (as amended): the output file is opened only after the checks, the
    read and the transforms have succeeded, none of which changes the file
    system: a failure among them ends the run with every file as it was.
    After them the run is the write of the prepared content, and when the
    run returns the output path holds the whole of it. *)
Theorem obfuscate_file_write_last (inp outp : string)
  (substitution shuffle : bool) (key : Z) (w : World G) :
  exists (prepared : result str) (w1 : World G),
    prepare_content inp substitution shuffle key w = (prepared, w1) /\
    files w1 = files w /\
    match prepared with
    | Raise e =>
        obfuscate_file inp outp substitution shuffle key w = (Raise e, w1)
    | Ok content =>
        obfuscate_file inp outp substitution shuffle key w =
          write_text outp content w1 /\
        forall w' : World G,
          obfuscate_file inp outp substitution shuffle key w = (Ok tt, w') ->
          exists r, files w' !! outp = Some (File r true content)
    end.
Proof.
  rewrite obfuscate_file_prepare. unfold bind.
  destruct (prepare_content inp substitution shuffle key w)
    as [prepared w1] eqn:E.
  exists prepared, w1. split; [reflexivity|].
  split; [exact (prepare_content_files _ _ _ _ _ _ _ E)|].
  destruct prepared as [content|e]; [|reflexivity].
  split; [reflexivity|].
  intros w' Hw. apply write_text_Ok_inv in Hw as (_ & r & ->).
  exists r. apply lookup_insert_eq.
Qed.

(** The promise of the random source: [randbelow(n)] is in [range(n)]. *)
Hypothesis randbelow_lt :
  forall (n : nat) (g : G), (0 < n)%nat -> (fst (randbelow n g) < n)%nat.

(** C4: with both flags set, the permute transform is applied to the
    shifted content: the content handed to the write is a permutation of
    [shift(C, K)], and when the run succeeds it is what the output file
    holds. *)
Theorem obfuscate_file_shift_then_permute (inp outp : string) (key : Z)
  (w : World G) (wr : bool) (content shifted : str) :
  files w !! inp = Some (File true wr content) ->
  substitute_chars content key = Ok shifted ->
  exists (out : str) (w1 : World G),
    shuffle_chars shifted w = (Ok out, w1) /\
    out ≡ₚ shifted /\
    obfuscate_file inp outp true true key w = write_text outp out w1 /\
    forall w' : World G,
      obfuscate_file inp outp true true key w = (Ok tt, w') ->
      exists r, files w' !! outp = Some (File r true out).
Proof using randbelow_lt.
  intros Hin Hshift.
  destruct (shuffle_chars_spec randbelow_lt shifted w)
    as (out & w1 & Esh & Hp & _).
  exists out, w1. split; [assumption|]. split; [assumption|].
  assert (Erun : obfuscate_file inp outp true true key w =
                 write_text outp out w1).
  { unfold obfuscate_file, bind.
    rewrite (path_exists_Some inp w) by (rewrite Hin; eauto). cbn.
    unfold read_text. rewrite Hin. unfold lift. rewrite Hshift, Esh.
    reflexivity. }
  split; [assumption|].
  intros w' Hok. rewrite Erun in Hok.
  apply write_text_Ok_inv in Hok as (_ & r & ->).
  exists r. apply lookup_insert_eq.
Qed.

End Orchestrator.

(** ** The orchestrator on concrete worlds *)

Lemma obfuscate_file_no_method_witness :
  is_Some (files (mkWorld (one_file "in" (py "abc")) 7%nat) !! "in") /\
  obfuscate_file (RS := lcg) (CD := utf8) (OS0 := posix)
    "in" "out" false false 42
    (mkWorld (one_file "in" (py "abc")) 7%nat) =
  (Raise no_method_selected, mkWorld (one_file "in" (py "abc")) 7%nat).
Proof.
  split.
  - exists (File true true (py "abc")). reflexivity.
  - apply (obfuscate_file_no_method (RS := lcg) (CD := utf8) (OS0 := posix)
             "in" "out" 42 (mkWorld (one_file "in" (py "abc")) 7%nat)).
    exists (File true true (py "abc")). reflexivity.
Defined.

(** C3 fails as stated: when the input path does not exist, a run with both
    flags false fails with [FileNotFoundError], not with the
    invalid-configuration error: the existence test comes first. *)
Lemma obfuscate_file_no_method_counterexample :
  obfuscate_file (RS := lcg) (CD := utf8) (OS0 := posix)
    "missing" "out" false false 42 (mkWorld ∅ 7%nat) =
  (Raise (input_not_found "missing"), mkWorld ∅ 7%nat) /\
  input_not_found "missing" <> no_method_selected.
Proof.
  split; [|discriminate].
  unfold obfuscate_file, bind.
  now rewrite (path_exists_None "missing" (mkWorld ∅ 7%nat)).
Qed.

Lemma obfuscate_file_not_found_witness :
  files (mkWorld (one_file "in" (py "abc")) 7%nat) !! "./missing" = None /\
  stat_error (OS := posix) "./missing" = None /\
  obfuscate_file (RS := lcg) (CD := utf8) (OS0 := posix)
    "./missing" "out" true true 42
    (mkWorld (one_file "in" (py "abc")) 7%nat) =
  (Raise (FileNotFoundError "Input file not found: missing"),
   mkWorld (one_file "in" (py "abc")) 7%nat).
Proof.
  split; [reflexivity|]. split; [reflexivity|].
  apply (obfuscate_file_not_found (RS := lcg) (CD := utf8) (OS0 := posix)
           "./missing" "out" true true 42
           (mkWorld (one_file "in" (py "abc")) 7%nat)); reflexivity.
Defined.

(** C5 fails as stated: an input path whose name has 300 bytes does not
    exist, yet the run does not fail with [FileNotFoundError]: the existence
    test itself raises the [OSError] of [stat]. *)
Lemma obfuscate_file_not_found_counterexample :
  files (mkWorld (one_file "in" (py "abc")) 7%nat) !! long_name = None /\
  obfuscate_file (RS := lcg) (CD := utf8) (OS0 := posix)
    long_name "out" true true 42
    (mkWorld (one_file "in" (py "abc")) 7%nat) =
  (Raise (OSError "[Errno 36] File name too long"),
   mkWorld (one_file "in" (py "abc")) 7%nat).
Proof. split; vm_compute; reflexivity. Qed.

Lemma obfuscate_file_shift_then_permute_witness :
  (forall n g : nat,
     (0 < n)%nat -> (fst (randbelow (RandomSource := lcg) n g) < n)%nat) /\
  files (mkWorld (one_file "in" (py "hello")) 7%nat) !! "in" =
    Some (File true true (py "hello")) /\
  substitute_chars (py "hello") 1 = Ok (py "ifmmp") /\
  exists (out : str) (w1 : World nat),
    shuffle_chars (RS := lcg) (py "ifmmp")
      (mkWorld (one_file "in" (py "hello")) 7%nat) = (Ok out, w1) /\
    out ≡ₚ py "ifmmp" /\
    obfuscate_file (RS := lcg) (CD := utf8) (OS0 := posix)
      "in" "out" true true 1
      (mkWorld (one_file "in" (py "hello")) 7%nat) =
    write_text (CD := utf8) (OS0 := posix) "out" out w1 /\
    forall w' : World nat,
      obfuscate_file (RS := lcg) (CD := utf8) (OS0 := posix)
        "in" "out" true true 1
        (mkWorld (one_file "in" (py "hello")) 7%nat) = (Ok tt, w') ->
      exists r, files w' !! "out" = Some (File r true out).
Proof.
  split; [exact lcg_randbelow_lt|].
  split; [reflexivity|].
  split; [vm_compute; reflexivity|].
  apply (obfuscate_file_shift_then_permute (RS := lcg) (CD := utf8)
           (OS0 := posix) lcg_randbelow_lt "in" "out" 1
           (mkWorld (one_file "in" (py "hello")) 7%nat) true
           (py "hello") (py "ifmmp")).
  - reflexivity.
  - vm_compute; reflexivity.
Defined.

(** The run of the witness: "hello" shifted by 1 is "ifmmp", shuffled with
    this generator and seed it is "mifpm", which the output file holds. *)
Example obfuscate_file_hello :
  exists w',
    obfuscate_file (RS := lcg) (CD := utf8) (OS0 := posix)
      "in" "out" true true 1
      (mkWorld (one_file "in" (py "hello")) 7%nat) = (Ok tt, w') /\
    files w' !! "out" = Some (File true true (py "mifpm")).
Proof. eexists. split; vm_compute; reflexivity. Qed.

(** C8 fails as stated: key 55199 shifts "a" to the surrogate U+D800, which
    the encoder rejects. The run fails, yet the output file, which held
    "keep", has been truncated: it neither holds the transformed content nor
    is as it was. *)
Lemma obfuscate_file_write_last_counterexample :
  exists w' : World nat,
    obfuscate_file (RS := lcg) (CD := utf8) (OS0 := posix)
      "in" "out" true false 55199
      (mkWorld two_files 7%nat) = (Raise UnicodeEncodeError, w') /\
    fst (prepare_content (RS := lcg) (OS0 := posix) "in" true false 55199
           (mkWorld two_files 7%nat)) = Ok [U_D800] /\
    files w' !! "out" = Some (File true true []) /\
    ~ all_or_nothing two_files "out" [U_D800] (files w').
Proof.
  eexists. split; [vm_compute; reflexivity|].
  split; [vm_compute; reflexivity|].
  split; [vm_compute; reflexivity|].
  intros [H | (r & wr & H)]; vm_compute in H; discriminate.
Qed.

Lemma obfuscate_file_write_last_witness :
  obfuscate_file (RS := lcg) (CD := utf8) (OS0 := posix)
    "in" "out" true false 1 (mkWorld (one_file "in" (py "abc")) 7%nat) =
  (Ok tt,
   mkWorld (<["out" := File true true (py "bcd")]> (one_file "in" (py "abc")))
     7%nat) /\
  exists r : bool,
    files (mkWorld (<["out" := File true true (py "bcd")]>
                      (one_file "in" (py "abc"))) 7%nat) !! "out" =
    Some (File r true (py "bcd")).
Proof.
  assert (H : obfuscate_file (RS := lcg) (CD := utf8) (OS0 := posix)
                "in" "out" true false 1
                (mkWorld (one_file "in" (py "abc")) 7%nat) =
              (Ok tt,
               mkWorld (<["out" := File true true (py "bcd")]>
                          (one_file "in" (py "abc"))) 7%nat))
    by (vm_compute; reflexivity).
  split; [exact H|].
  destruct (obfuscate_file_write_last (RS := lcg) (CD := utf8) (OS0 := posix)
              "in" "out" true false 1
              (mkWorld (one_file "in" (py "abc")) 7%nat))
    as (prepared & w1 & Hprep & _ & Hrun).
  assert (Hp : prepared = Ok (py "bcd")).
  { vm_compute in Hprep. now injection Hprep as <- _. }
  subst prepared. destruct Hrun as [_ Hok]. exact (Hok _ H).
Defined.

(** On a full disk the write is cut short: "hello" shifted by 1 is "ifmmp",
    the run fails with the [OSError] of the write, and the output file is
    left with "if". *)
Example obfuscate_file_partial_write :
  exists w' : World nat,
    obfuscate_file (RS := lcg) (CD := utf8) (OS0 := posix_full_disk)
      "in" "out" true false 1
      (mkWorld (one_file "in" (py "hello")) 7%nat) =
    (Raise (OSError "[Errno 28] No space left on device"), w') /\
    files w' !! "out" = Some (File true true (py "if")).
Proof. eexists. split; vm_compute; reflexivity. Qed.

(** ** Further properties of the shift transform *)

(** The loop only looks at the shifted code points. *)
Lemma substitute_loop_ext (content content' : str) (key key' : Z) :
  map (fun c => ord c + key) content = map (fun c => ord c + key') content' ->
  forall acc, substitute_loop content key acc = substitute_loop content' key' acc.
Proof.
  revert content'.
  induction content as [|c content IH]; intros [|c' content'] H acc;
    try discriminate; [reflexivity|].
  simpl in H. injection H as Hc H. simpl. rewrite Hc.
  destruct (chr (ord c' + key')); [|reflexivity]. now apply IH.
Qed.

(** The accumulator is a prefix of the result, and does not influence
    whether the loop raises. *)
Lemma substitute_loop_acc (content : str) (key : Z) :
  forall acc,
    substitute_loop content key acc =
    match substitute_chars content key with
    | Ok out => Ok (acc ++ out)
    | Raise e => Raise e
    end.
Proof.
  unfold substitute_chars.
  induction content as [|c content IH]; intros acc; simpl.
  - now rewrite app_nil_r.
  - destruct (chr (ord c + key)) as [d|e]; [|reflexivity].
    rewrite (IH (acc ++ [d])), (IH [d]).
    destruct (substitute_loop content key []); [|reflexivity].
    now rewrite <- app_assoc.
Qed.

Lemma substitute_chars_cons (c : char) (content : str) (key : Z) :
  substitute_chars (c :: content) key =
  match chr (ord c + key) with
  | Ok d =>
      match substitute_chars content key with
      | Ok out => Ok (d :: out)
      | Raise e => Raise e
      end
  | Raise e => Raise e
  end.
Proof.
  unfold substitute_chars at 1. simpl.
  destruct (chr (ord c + key)) as [d|e]; [|reflexivity].
  now rewrite substitute_loop_acc.
Qed.

Lemma substitute_chars_Ok_map (content out : str) (key : Z) :
  substitute_chars content key = Ok out ->
  map ord out = map (fun c => ord c + key) content.
Proof.
  revert out. induction content as [|c content IH]; intros out.
  - now intros [= <-].
  - rewrite substitute_chars_cons.
    destruct (chr (ord c + key)) as [d|e] eqn:Ed; [|discriminate].
    destruct (substitute_chars content key) as [out'|e]; [|discriminate].
    intros [= <-]. simpl. now rewrite (IH out' eq_refl), (chr_Ok_ord _ _ Ed).
Qed.

Lemma str_eq_of_ord (a b : str) : map ord a = map ord b -> a = b.
Proof.
  revert b. induction a as [|x a IH]; intros [|y b] H; try discriminate;
    [reflexivity|].
  simpl in H. injection H as Hx H. f_equal; [now apply char_eq | now apply IH].
Qed.

Lemma substitute_chars_Raise_inv (content : str) (key : Z) (e : exn) :
  substitute_chars content key = Raise e ->
  exists c,
    c ∈ content /\ in_range (ord c + key) = false /\
    e = chr_error (ord c + key).
Proof.
  induction content as [|c content IH].
  - discriminate.
  - rewrite substitute_chars_cons.
    destruct (in_range (ord c + key)) eqn:E.
    + rewrite (chr_in_range _ E).
      destruct (substitute_chars content key) as [out|e']; [discriminate|].
      intros [= <-]. destruct (IH eq_refl) as (d & Hd & Ed & He).
      exists d. split; [now right | now split].
    + rewrite (chr_out_of_range _ E). intros [= <-].
      exists c. split; [now left | now split].
Qed.

(** X1: shifting by [k1] and then by [k2] is shifting by [k1 + k2], also in
    what it raises, as soon as the first shift returns. *)
Theorem substitute_chars_compose (content out : str) (k1 k2 : Z) :
  substitute_chars content k1 = Ok out ->
  substitute_chars out k2 = substitute_chars content (k1 + k2).
Proof.
  intros H%substitute_chars_Ok_map. unfold substitute_chars.
  apply substitute_loop_ext.
  rewrite <- (map_map ord (fun i => i + k2) out), H, map_map.
  apply map_ext. intros c. lia.
Qed.

Lemma substitute_chars_compose_witness :
  substitute_chars (py "abc") 1 = Ok (py "bcd") /\
  substitute_chars (py "bcd") 2 = substitute_chars (py "abc") (1 + 2).
Proof.
  split.
  - vm_compute. reflexivity.
  - apply (substitute_chars_compose (py "abc") (py "bcd") 1 2).
    vm_compute. reflexivity.
Defined.

(** X2: the shift is injective: two contents with the same shifted result
    under the same key are equal. *)
Theorem substitute_chars_injective (content content' out : str) (key : Z) :
  substitute_chars content key = Ok out ->
  substitute_chars content' key = Ok out ->
  content = content'.
Proof.
  intros H%substitute_chars_Ok_map H'%substitute_chars_Ok_map.
  apply str_eq_of_ord. rewrite H in H'. clear H.
  revert content' H'.
  induction content as [|c content IH]; intros [|c' content'] H;
    try discriminate; [reflexivity|].
  simpl in *. injection H as Hc H. f_equal; [lia | now apply IH].
Qed.

Lemma substitute_chars_injective_witness :
  substitute_chars (py "abc") 1 = Ok (py "bcd") /\
  substitute_chars (py "abc") 1 = Ok (py "bcd") /\
  py "abc" = py "abc".
Proof.
  split; [vm_compute; reflexivity|].
  split; [vm_compute; reflexivity|].
  apply (substitute_chars_injective (py "abc") (py "abc") (py "bcd") 1);
    vm_compute; reflexivity.
Defined.

(** X3: the shift of a concatenation is the concatenation of the shifts,
    and it raises what the first failing part raises. *)
Theorem substitute_chars_app (a b : str) (key : Z) :
  substitute_chars (a ++ b) key =
  match substitute_chars a key, substitute_chars b key with
  | Ok out_a, Ok out_b => Ok (out_a ++ out_b)
  | Ok _, Raise e => Raise e
  | Raise e, _ => Raise e
  end.
Proof.
  induction a as [|c a IH].
  - simpl. change (substitute_chars [] key) with (@Ok str []).
    now destruct (substitute_chars b key).
  - rewrite <- app_comm_cons, !substitute_chars_cons.
    destruct (chr (ord c + key)) as [d|e]; [|reflexivity].
    rewrite IH.
    destruct (substitute_chars a key) as [oa|e]; [|reflexivity].
    now destruct (substitute_chars b key).
Qed.

(** X4: the shift raises nothing but what [chr] raises, and only for a
    character of the content whose shifted code point is out of range:
    [ValueError] when that code point fits a C [int], [OverflowError] when
    it does not. *)
Theorem substitute_chars_raises_only_chr_error
  (content : str) (key : Z) (e : exn) :
  substitute_chars content key = Raise e ->
  exists c,
    c ∈ content /\ ~ (0 <= ord c + key < 0x110000) /\
    e = (if fits_c_int (ord c + key)
         then ValueError "chr() arg not in range(0x110000)"
         else OverflowError).
Proof.
  intros (c & Hc & E & ->)%substitute_chars_Raise_inv.
  exists c. split; [assumption|]. split; [|reflexivity].
  rewrite <- in_range_bounds. congruence.
Qed.

Lemma substitute_chars_raises_only_chr_error_witness :
  substitute_chars (py "a") (2 ^ 31) = Raise OverflowError /\
  exists c,
    c ∈ py "a" /\ ~ (0 <= ord c + 2 ^ 31 < 0x110000) /\
    OverflowError =
      (if fits_c_int (ord c + 2 ^ 31)
       then ValueError "chr() arg not in range(0x110000)"
       else OverflowError).
Proof.
  split; [vm_compute; reflexivity|].
  apply (substitute_chars_raises_only_chr_error (py "a") (2 ^ 31)).
  vm_compute. reflexivity.
Defined.

(** X5: the shift commutes with reordering: the shift of a permutation of
    the content returns a permutation of the shift of the content. *)
Theorem substitute_chars_Permutation (content content' out : str) (key : Z) :
  content ≡ₚ content' ->
  substitute_chars content key = Ok out ->
  exists out', substitute_chars content' key = Ok out' /\ out ≡ₚ out'.
Proof.
  intros Hp. revert out.
  induction Hp as [|x l l' Hp IH|x y l|l l' l'' _ IH1 _ IH2]; intros out.
  - intros [= <-]. now exists [].
  - rewrite !substitute_chars_cons.
    destruct (chr (ord x + key)) as [d|e]; [|discriminate].
    destruct (substitute_chars l key) as [o|e]; [|discriminate].
    intros [= <-]. destruct (IH o eq_refl) as (o' & -> & Ho).
    exists (d :: o'). split; [reflexivity | now constructor].
  - rewrite !substitute_chars_cons.
    destruct (chr (ord y + key)) as [dy|e]; [|discriminate].
    destruct (chr (ord x + key)) as [dx|e]; [|discriminate].
    destruct (substitute_chars l key) as [o|e]; [|discriminate].
    intros [= <-]. exists (dx :: dy :: o). split; [reflexivity | constructor].
  - intros H. destruct (IH1 out H) as (o1 & H1 & Hp1).
    destruct (IH2 o1 H1) as (o2 & H2 & Hp2).
    exists o2. split; [assumption | now transitivity o1].
Qed.

Lemma substitute_chars_Permutation_witness :
  py "ab" ≡ₚ py "ba" /\
  substitute_chars (py "ab") 1 = Ok (py "bc") /\
  exists out', substitute_chars (py "ba") 1 = Ok out' /\ py "bc" ≡ₚ out'.
Proof.
  split; [apply perm_swap|].
  split; [vm_compute; reflexivity|].
  apply (substitute_chars_Permutation (py "ab") (py "ba") (py "bc") 1).
  - apply perm_swap.
  - vm_compute. reflexivity.
Defined.

(** X6: a key of magnitude 0x110000 or more shifts every code point out of
    range: on any non-empty content the shift raises at the first
    character, [ValueError] when the shifted code point of that character
    fits a C [int] and [OverflowError] when it does not. *)
Theorem substitute_chars_key_too_large (c : char) (content : str) (key : Z) :
  0x110000 <= Z.abs key ->
  substitute_chars (c :: content) key =
    Raise (if fits_c_int (ord c + key)
           then ValueError "chr() arg not in range(0x110000)"
           else OverflowError).
Proof.
  intros Hkey. rewrite substitute_chars_cons.
  pose proof (proj1 (in_range_bounds _) (ord_in_range c)) as Hc.
  destruct (in_range (ord c + key)) eqn:E.
  - apply in_range_bounds in E. lia.
  - now rewrite (chr_out_of_range _ E).
Qed.

Lemma substitute_chars_key_too_large_witness :
  0x110000 <= Z.abs (- 2 ^ 32) /\
  substitute_chars (py "ab") (- 2 ^ 32) = Raise OverflowError.
Proof.
  split; [vm_compute; discriminate|].
  apply (substitute_chars_key_too_large (char_of_ascii "a") (py "b")
           (- 2 ^ 32)).
  vm_compute. discriminate.
Defined.

(** ** Further properties of the orchestrator *)

Section Runs.
Context {G : Type} {RS : RandomSource G} {CD : Codec} {OS0 : OS}.

(** A run on a readable input with a transform selected: the shift, then
    the shuffle, then the write. *)
Lemma obfuscate_file_readable inp outp substitution shuffle key
  (w : World G) (wr : bool) (content : str) :
  files w !! inp = Some (File true wr content) ->
  substitution || shuffle = true ->
  obfuscate_file inp outp substitution shuffle key w =
  match (if substitution then substitute_chars content key
         else Ok content) with
  | Raise e => (Raise e, w)
  | Ok obf =>
      bind (if shuffle then shuffle_chars obf else ret obf)
        (write_text outp) w
  end.
Proof.
  intros Hin Hflag. unfold obfuscate_file, bind at 1.
  rewrite (path_exists_Some inp w) by (rewrite Hin; eauto). cbn.
  replace (negb substitution && negb shuffle) with false
    by (now destruct substitution, shuffle).
  unfold bind at 1, read_text. rewrite Hin.
  destruct substitution.
  - unfold bind at 1, lift.
    now destruct (substitute_chars content key).
  - reflexivity.
Qed.

(** A run that returns had a readable input and a transform selected. *)
Lemma obfuscate_file_Ok_readable inp outp substitution shuffle key
  (w w' : World G) :
  obfuscate_file inp outp substitution shuffle key w = (Ok tt, w') ->
  exists (wr : bool) (content : str),
    files w !! inp = Some (File true wr content) /\
    substitution || shuffle = true.
Proof.
  unfold obfuscate_file, bind at 1.
  destruct (files w !! inp) as [n|] eqn:Hin.
  - rewrite (path_exists_Some inp w) by (rewrite Hin; eauto). cbn.
    destruct (negb substitution && negb shuffle) eqn:Hflag; [discriminate|].
    unfold bind at 1, read_text. rewrite Hin.
    destruct n as [|[] wr content]; try discriminate.
    intros _. exists wr, content. split; [reflexivity|].
    now destruct substitution, shuffle.
  - unfold path_exists. rewrite Hin.
    destruct (stat_error inp); discriminate.
Qed.


(** X11: a run, with a transform selected, on an input path that exists but
    is a directory or a file without read permission fails with the
    [OSError] of [open], after the existence test has passed, and leaves the
    world as it was. *)
Theorem obfuscate_file_unreadable (inp outp : string)
  (substitution shuffle : bool) (key : Z) (w : World G) (n : node) :
  files w !! inp = Some n ->
  (forall wr content, n <> File true wr content) ->
  substitution || shuffle = true ->
  obfuscate_file inp outp substitution shuffle key w =
  (Raise (match n with Dir => IsADirectoryError | _ => PermissionError end),
   w).
Proof.
  intros Hin Hn Hflag. unfold obfuscate_file, bind at 1.
  rewrite (path_exists_Some inp w) by (rewrite Hin; eauto). cbn.
  replace (negb substitution && negb shuffle) with false
    by (now destruct substitution, shuffle).
  unfold bind at 1, read_text. rewrite Hin.
  destruct n as [|[] wr content]; try reflexivity.
  now destruct (Hn wr content).
Qed.

End Runs.

Section RunsWithRandomSource.
Context {G : Type} {RS : RandomSource G} {CD : Codec} {OS0 : OS}.

(** The promise of the random source: [randbelow(n)] is in [range(n)]. *)
Hypothesis randbelow_lt :
  forall (n : nat) (g : G), (0 < n)%nat -> (fst (randbelow n g) < n)%nat.

(** The second transform step: the content is reordered or kept, and the
    file system is not touched. *)
Lemma shuffle_step (shuffle : bool) (obf : str) (w : World G) :
  exists (out : str) (w1 : World G),
    (if shuffle then shuffle_chars obf else ret obf) w = (Ok out, w1) /\
    (if shuffle then out ≡ₚ obf else out = obf) /\
    files w1 = files w.
Proof using randbelow_lt.
  destruct shuffle.
  - destruct (shuffle_chars_spec randbelow_lt obf w) as (out & w1 & E & Hp & Hf).
    now exists out, w1.
  - now exists obf, w.
Qed.

(** What a run that returns has done. *)
Lemma obfuscate_file_Ok_inv inp outp substitution shuffle key
  (w w' : World G) :
  obfuscate_file inp outp substitution shuffle key w = (Ok tt, w') ->
  exists (wr : bool) (content obf out : str) (r : bool),
    files w !! inp = Some (File true wr content) /\
    (if substitution then substitute_chars content key else Ok content)
      = Ok obf /\
    (if shuffle then out ≡ₚ obf else out = obf) /\
    files w' !! outp = Some (File r true out).
Proof using randbelow_lt.
  intros Hrun.
  destruct (obfuscate_file_Ok_readable _ _ _ _ _ _ _ Hrun)
    as (wr & content & Hin & Hflag).
  rewrite (obfuscate_file_readable inp outp substitution shuffle key w wr
             content Hin Hflag) in Hrun.
  destruct (if substitution then substitute_chars content key else Ok content)
    as [obf|e] eqn:Hobf; [|discriminate].
  destruct (shuffle_step shuffle obf w) as (out & w1 & E & Hout & Hf).
  unfold bind in Hrun. rewrite E in Hrun.
  apply write_text_Ok_inv in Hrun as (_ & r & ->).
  exists wr, content, obf, out, r. repeat split; try assumption.
  apply lookup_insert_eq.
Qed.

(** X16: without [-s] and without [-r], [main] exits with status 1 and
    leaves the world as it was, whether the input file exists or not. *)
Theorem main_no_method (a : args.t) (w : World G) :
  args.substitution a = false ->
  args.shuffle a = false ->
  main a w = (1, w).
Proof.
  intros Hs Hr. unfold main. rewrite Hs, Hr.
  destruct (setLevel (args.log_level a)); [|reflexivity].
  unfold obfuscate_file, bind at 1.
  destruct (path_exists (args.input_file a) w) as [[[]|e] w1] eqn:E;
    apply path_exists_files in E; subst w1; reflexivity.
Qed.

(** X17: when [main] exits with status 0, the input was a readable file and
    the output path holds, complete, the content that the selected
    transforms give: the shifted content of the input, reordered when the
    shuffle is selected. *)
Theorem main_exit_0 (a : args.t) (w w' : World G) :
  main a w = (0, w') ->
  exists (wr : bool) (content obf out : str) (r : bool),
    files w !! args.input_file a = Some (File true wr content) /\
    (if args.substitution a then substitute_chars content (args.key a)
     else Ok content) = Ok obf /\
    (if args.shuffle a then out ≡ₚ obf else out = obf) /\
    files w' !! args.output_file a = Some (File r true out).
Proof using randbelow_lt.
  unfold main.
  destruct (setLevel (args.log_level a)); [|discriminate].
  destruct (obfuscate_file _ _ _ _ _ w) as [[[]|e] w1] eqn:Hrun;
    [|discriminate].
  intros [= <-]. exact (obfuscate_file_Ok_inv _ _ _ _ _ _ _ Hrun).
Qed.

End RunsWithRandomSource.

(** ** The further properties on concrete worlds *)


Lemma obfuscate_file_unreadable_witness :
  files (mkWorld {["in" := Dir]} 7%nat) !! "in" = Some Dir /\
  (forall wr content, Dir <> File true wr content) /\
  true || false = true /\
  obfuscate_file (RS := lcg) (CD := utf8) (OS0 := posix)
    "in" "out" true false 42
    (mkWorld {["in" := Dir]} 7%nat) =
  (Raise IsADirectoryError, mkWorld {["in" := Dir]} 7%nat).
Proof.
  split; [reflexivity|].
  split; [discriminate|].
  split; [reflexivity|].
  apply (obfuscate_file_unreadable (RS := lcg) (CD := utf8) (OS0 := posix)
           "in" "out" true false 42 (mkWorld {["in" := Dir]} 7%nat) Dir).
  - reflexivity.
  - discriminate.
  - reflexivity.
Defined.

Lemma main_no_method_witness :
  args.substitution (args.mk "in" "out" false false 42 "INFO") = false /\
  args.shuffle (args.mk "in" "out" false false 42 "INFO") = false /\
  main (RS := lcg) (CD := utf8) (OS0 := posix)
    (args.mk "in" "out" false false 42 "INFO")
    (mkWorld two_files 7%nat) = (1, mkWorld two_files 7%nat).
Proof.
  split; [reflexivity|]. split; [reflexivity|].
  apply (main_no_method (RS := lcg) (CD := utf8) (OS0 := posix)
           (args.mk "in" "out" false false 42 "INFO")
           (mkWorld two_files 7%nat)); reflexivity.
Defined.

Lemma main_exit_0_witness :
  (forall n g : nat,
     (0 < n)%nat -> (fst (randbelow (RandomSource := lcg) n g) < n)%nat) /\
  main (RS := lcg) (CD := utf8) (OS0 := posix)
    (args.mk "in" "out" true false 1 "INFO") (mkWorld two_files 7%nat) =
  (0, mkWorld (<["out" := File true true (py "b")]> two_files) 7%nat) /\
  exists (wr : bool) (content obf out : str) (r : bool),
    files (mkWorld two_files 7%nat) !! "in" = Some (File true wr content) /\
    substitute_chars content 1 = Ok obf /\
    out = obf /\
    files (mkWorld (<["out" := File true true (py "b")]> two_files) 7%nat)
      !! "out" = Some (File r true out).
Proof.
  assert (H : main (RS := lcg) (CD := utf8) (OS0 := posix)
                (args.mk "in" "out" true false 1 "INFO")
                (mkWorld two_files 7%nat) =
              (0, mkWorld (<["out" := File true true (py "b")]> two_files)
                    7%nat))
    by (vm_compute; reflexivity).
  split; [exact lcg_randbelow_lt|]. split; [exact H|].
  exact (main_exit_0 (RS := lcg) (CD := utf8) (OS0 := posix) lcg_randbelow_lt
           (args.mk "in" "out" true false 1 "INFO") _ _ H).
Defined.
